(** * Snowflake identifiers: packages/core/src/utils/snowflake.py

    A shallow embedding of [SnowflakeGenerator] and [parse_snowflake_id].

    Python integers are unbounded, so every integer is a [Z] and the
    operators [<<], [>>], [|], [&], [^] are [Z.shiftl], [Z.shiftr], [Z.lor],
    [Z.land], [Z.lxor] (two's complement on negative numbers, as in
    Python).  The attribute [generated_sequences] is a Python [set] of
    integers: a [gset Z].

    The two sources of input that [generate_id] reads from its environment
    are made explicit arguments:
    - the value returned by [self.current_time()] (one reading per call);
    - the values returned by successive calls of [random.randint]: a list
      of draws, consumed from the head.  The list also bounds how long the
      [while True] loop is followed: when the draws run out with the loop
      still running the call has not returned. *)

From stdpp Require Import gmap list strings pretty.
From Stdlib Require Import ZArith Lia Sorted.

Local Open Scope Z_scope.

(** ** The class [SnowflakeGenerator] *)

Module SnowflakeGenerator.

(** Class constants, lines 4-11. *)
Definition MACHINE_ID_BITS : Z := 10.
Definition SEQUENCE_BITS : Z := 12.

Definition MAX_MACHINE_ID : Z := Z.lxor (-1) (Z.shiftl (-1) MACHINE_ID_BITS).
Definition MAX_SEQUENCE : Z := Z.lxor (-1) (Z.shiftl (-1) SEQUENCE_BITS).

Definition MACHINE_ID_SHIFT : Z := SEQUENCE_BITS.
Definition TIMESTAMP_LEFT_SHIFT : Z := SEQUENCE_BITS + MACHINE_ID_BITS.

(** The instance attributes set by [__init__]. *)
Record t : Type := Build {
  epoch : Z;
  machine_id : Z;
  last_timestamp : Z;
  generated_sequences : gset Z
}.

(** The two exceptions the class raises:
    [ValueError("Machine ID must be between 0 and ...")] in [__init__] and
    [Exception("Clock moved backwards. Refusing to generate id")] in
    [generate_id]. *)
Inductive exn : Type :=
| ValueError
| ClockMovedBackwards.

(** [__init__], lines 13-20: the four attributes are assigned, then the
    machine id is checked; when the check raises, the caller gets no
    object. *)
Definition init (epoch machine_id : Z) : exn + t :=
  let self := Build epoch machine_id (-1) ∅ in
  if decide (self.(SnowflakeGenerator.machine_id) < 0
             ∨ self.(SnowflakeGenerator.machine_id) > MAX_MACHINE_ID)
  then inl ValueError
  else inr self.

(** Lines 32-34: a reading different from [last_timestamp] clears the set
    and is recorded. *)
Definition observe (self : t) (timestamp : Z) : t :=
  if decide (timestamp ≠ self.(last_timestamp))
  then Build self.(epoch) self.(machine_id) timestamp ∅
  else self.

(** Lines 36-40, the [while True] loop: draw until a value that is not in
    the set comes up, add it and leave the loop.  [None]: every draw of
    the list was rejected and the loop is still running. *)
Fixpoint draw_sequence (used : gset Z) (draws : list Z)
  : option (Z * gset Z * list Z) :=
  match draws with
  | [] => None
  | sequence :: rest =>
      if decide (sequence ∈ used)
      then draw_sequence used rest
      else Some (sequence, {[sequence]} ∪ used, rest)
  end.

(** Lines 42-44. *)
Definition pack (self : t) (timestamp sequence : Z) : Z :=
  Z.lor (Z.lor (Z.shiftl (timestamp - self.(epoch)) TIMESTAMP_LEFT_SHIFT)
               (Z.shiftl self.(machine_id) MACHINE_ID_SHIFT))
        sequence.

(** What one call of [generate_id] has done once the given draws are
    used up or the call is over, with the object as the call left it.
    - [Returned id sequence self' rest]: the call returned [id];
      [sequence] is the value of the local variable [sequence] at the
      [return] (it is not part of the Python return value, it is kept so
      that statements can name the sequence that was allocated) and
      [rest] are the draws that were not consumed;
    - [Raised e self']: the call raised [e];
    - [Looping self']: all draws were rejected, the loop of lines 36-40 is
      still running. *)
Inductive outcome : Type :=
| Returned (id sequence : Z) (self' : t) (rest : list Z)
| Raised (e : exn) (self' : t)
| Looping (self' : t).

(** [generate_id], lines 26-46. *)
Definition generate_id (self : t) (timestamp : Z) (draws : list Z) : outcome :=
  if decide (timestamp < self.(last_timestamp))
  then Raised ClockMovedBackwards self
  else
    let self := observe self timestamp in
    match draw_sequence self.(generated_sequences) draws with
    | None => Looping self
    | Some (sequence, used, rest) =>
        let self' :=
          Build self.(epoch) self.(machine_id) self.(last_timestamp) used in
        Returned (pack self timestamp sequence) sequence self' rest
    end.

End SnowflakeGenerator.

Import SnowflakeGenerator.

(** ** The decoder, lines 48-52 *)

Definition parse_snowflake_id (snowflake_id epoch : Z) : Z * Z * Z :=
  let timestamp := Z.shiftr snowflake_id TIMESTAMP_LEFT_SHIFT + epoch in
  let machine_id := Z.land (Z.shiftr snowflake_id MACHINE_ID_SHIFT) MAX_MACHINE_ID in
  let sequence := Z.land snowflake_id MAX_SEQUENCE in
  (timestamp, machine_id, sequence).

(** ** The callers of [generate_id] *)

(** What [random.randint(0, MAX_SEQUENCE)] can return. *)
Definition randint_range (d : Z) : Prop := 0 ≤ d ≤ MAX_SEQUENCE.

(** The object as a call left it. *)
Definition after (o : outcome) : SnowflakeGenerator.t :=
  match o with
  | Returned _ _ self' _ => self'
  | Raised _ self' => self'
  | Looping self' => self'
  end.

(** A caller that calls [generate_id] once per clock reading of [clock], on
    the same object, like the loop of lines 62-68; a caller that catches the
    exception of a call goes on with the next one.  The draws a call did not
    consume are left for the next one.  Nothing follows a call that does
    not return. *)
Fixpoint calls (self : SnowflakeGenerator.t) (clock : list Z) (draws : list Z)
  : list outcome :=
  match clock with
  | [] => []
  | timestamp :: clock' =>
      let o := generate_id self timestamp draws in
      o :: match o with
           | Returned _ _ self' rest => calls self' clock' rest
           | Raised _ self' => calls self' clock' draws
           | Looping _ => []
           end
  end.

(** The ids returned, and the sequences allocated, in call order. *)
Definition ids_of (os : list outcome) : list Z :=
  omap (λ o, match o with Returned id _ _ _ => Some id | _ => None end) os.

Definition sequences_of (os : list outcome) : list Z :=
  omap (λ o, match o with Returned _ sequence _ _ => Some sequence | _ => None end) os.

(** The states an object constructed as [self0] goes through: it is
    [self0], or what a call that returned or raised left of an earlier
    state. *)
Inductive reachable (self0 : SnowflakeGenerator.t) : SnowflakeGenerator.t → Prop :=
| reachable_new : reachable self0 self0
| reachable_call self timestamp draws :
    reachable self0 self →
    (∀ self', generate_id self timestamp draws ≠ Looping self') →
    reachable self0 (after (generate_id self timestamp draws)).

(** All the values [random.randint(0, MAX_SEQUENCE)] can return are in the
    set of the object. *)
Definition exhausted (self : SnowflakeGenerator.t) : Prop :=
  ∀ d, randint_range d → d ∈ generated_sequences self.

(** Every value [random.randint(0, MAX_SEQUENCE)] can return, in increasing
    order. *)
Definition all_sequences : list Z := seqZ 0 (MAX_SEQUENCE + 1).

(** The usage example, lines 55-58: the epoch is
    [int((2020 - 1970) * 365.25 * 24 * 60 * 60 * 1000)], the machine id is 1,
    and [generator] is the object that [SnowflakeGenerator(epoch, machine_id)]
    constructs.  [reading] is a clock reading five seconds after the
    epoch. *)
Definition usage_epoch : Z := 1577880000000.
Definition usage_machine_id : Z := 1.
Definition generator : SnowflakeGenerator.t :=
  Build usage_epoch usage_machine_id (-1) ∅.
Definition reading : Z := usage_epoch + 5000.

(** ** The script of the usage example, lines 58-72 *)

(** The lines the script prints: the two f-strings of the loop and the
    three numbers of the last [print], separated by spaces. *)
Definition collision_line (id : Z) : string := "Collision detected: " +:+ pretty id.
Definition order_line (id : Z) : string := "Purchase Order ID: " +:+ pretty id.
Definition parsed_line (parsed : Z * Z * Z) : string :=
  pretty parsed.1.1 +:+ " " +:+ pretty parsed.1.2 +:+ " " +:+ pretty parsed.2.

(** How the loop of lines 62-68 ends: it ran through, with the last value of
    [purchase_order_id] ([None]: never assigned), the set [generated_ids] and
    what was printed; or a call of [generate_id] raised; or a call of
    [generate_id] has not returned. *)
Inductive loop_end : Type :=
| LoopDone (purchase_order_id : option Z) (generated_ids : gset Z)
    (stdout : list string)
| LoopRaised (e : exn) (stdout : list string)
| LoopLooping (stdout : list string).

(** Lines 62-68, one iteration per clock reading: the id of the call is
    looked up in [generated_ids]; it is reported as a collision when it is
    there and added otherwise; the id is printed in both cases. *)
Fixpoint order_loop (generator : SnowflakeGenerator.t) (generated_ids : gset Z)
    (purchase_order_id : option Z) (readings draws : list Z)
    (stdout : list string) : loop_end :=
  match readings with
  | [] => LoopDone purchase_order_id generated_ids stdout
  | timestamp :: readings' =>
      match generate_id generator timestamp draws with
      | Raised e _ => LoopRaised e stdout
      | Looping _ => LoopLooping stdout
      | Returned id _ generator' rest =>
          if decide (id ∈ generated_ids)
          then order_loop generator' generated_ids (Some id) readings' rest
                 (stdout ++ [collision_line id; order_line id])
          else order_loop generator' ({[id]} ∪ generated_ids) (Some id)
                 readings' rest (stdout ++ [order_line id])
      end
  end.

(** How the script ends, with what it printed: it ran to its end; an
    exception was not caught; [purchase_order_id] was read without having
    been assigned; a call of [generate_id] has not returned. *)
Inductive script_end : Type :=
| Exited (stdout : list string)
| Traceback (e : exn) (stdout : list string)
| NameError (stdout : list string)
| Hanging (stdout : list string).

(** Lines 58-72.  [clock k] is the reading of the [k]-th call of
    [current_time]; [range(10)] makes ten calls. *)
Definition usage_script (clock : nat → Z) (draws : list Z) : script_end :=
  match init usage_epoch usage_machine_id with
  | inl e => Traceback e []
  | inr generator =>
      match order_loop generator ∅ None (clock <$> seq 0 10) draws [] with
      | LoopRaised e stdout => Traceback e stdout
      | LoopLooping stdout => Hanging stdout
      | LoopDone None _ stdout => NameError stdout
      | LoopDone (Some purchase_order_id) _ stdout =>
          Exited (stdout
                  ++ [parsed_line (parse_snowflake_id purchase_order_id usage_epoch)])
      end
  end.

(** An id is stale for an object when it decodes to a reading before
    [last_timestamp], or to [last_timestamp] and a sequence of the set. *)
Definition stale (self : SnowflakeGenerator.t) (id : Z) : Prop :=
  let '(timestamp, _, sequence) := parse_snowflake_id id (epoch self) in
  timestamp < last_timestamp self
  ∨ (timestamp = last_timestamp self ∧ sequence ∈ generated_sequences self).

(** ** Constants *)

Lemma MAX_MACHINE_ID_eq : MAX_MACHINE_ID = 1023.
Proof. reflexivity. Qed.

Lemma MAX_SEQUENCE_eq : MAX_SEQUENCE = 4095.
Proof. reflexivity. Qed.

Lemma MACHINE_ID_SHIFT_eq : MACHINE_ID_SHIFT = 12.
Proof. reflexivity. Qed.

Lemma TIMESTAMP_LEFT_SHIFT_eq : TIMESTAMP_LEFT_SHIFT = 22.
Proof. reflexivity. Qed.

(** ** Bit fields *)

Section BitFields.

(** A number below [2^p] has no bit set from position [p] on. *)
Lemma testbit_high (p n i : Z) :
  0 ≤ n < 2 ^ p → p ≤ i → Z.testbit n i = false.
Proof.
  intros [Hn Hlt] Hi.
  destruct (decide (n = 0)) as [->|Hne]; [apply Z.bits_0|].
  apply Z.bits_above_log2; [done|].
  assert (Z.log2 n < p); [|lia].
  apply Z.log2_lt_pow2; lia.
Qed.

Variables d m s : Z.
Hypothesis Hm : 0 ≤ m ≤ 1023.
Hypothesis Hs : 0 ≤ s ≤ 4095.

Local Lemma m_high i : 10 ≤ i → Z.testbit m i = false.
Proof. apply testbit_high. change (2 ^ 10) with 1024. lia. Qed.

Local Lemma s_high i : 12 ≤ i → Z.testbit s i = false.
Proof. apply testbit_high. change (2 ^ 12) with 4096. lia. Qed.

Lemma word_timestamp :
  Z.shiftr (Z.lor (Z.lor (Z.shiftl d 22) (Z.shiftl m 12)) s) 22 = d.
Proof.
  apply Z.bits_inj'; intros i Hi.
  rewrite Z.shiftr_spec, !Z.lor_spec, !Z.shiftl_spec by lia.
  replace (i + 22 - 22) with i by lia.
  rewrite m_high, s_high by lia.
  by rewrite !orb_false_r.
Qed.

Lemma word_machine_id :
  Z.land (Z.shiftr (Z.lor (Z.lor (Z.shiftl d 22) (Z.shiftl m 12)) s) 12) 1023 = m.
Proof.
  change 1023 with (Z.ones 10).
  apply Z.bits_inj'; intros i Hi.
  rewrite Z.land_spec, Z.shiftr_spec, !Z.lor_spec, !Z.shiftl_spec by lia.
  replace (i + 12 - 12) with i by lia.
  rewrite s_high, orb_false_r by lia.
  destruct (decide (i < 10)) as [Hlt|Hge].
  - rewrite Z.ones_spec_low, andb_true_r by lia.
    rewrite (Z.testbit_neg_r d) by lia. done.
  - rewrite Z.ones_spec_high, andb_false_r by lia.
    symmetry. apply m_high. lia.
Qed.

Lemma word_sequence :
  Z.land (Z.lor (Z.lor (Z.shiftl d 22) (Z.shiftl m 12)) s) 4095 = s.
Proof.
  change 4095 with (Z.ones 12).
  apply Z.bits_inj'; intros i Hi.
  rewrite Z.land_spec, !Z.lor_spec, !Z.shiftl_spec by lia.
  destruct (decide (i < 12)) as [Hlt|Hge].
  - rewrite Z.ones_spec_low, andb_true_r by lia.
    rewrite (Z.testbit_neg_r d), (Z.testbit_neg_r m) by lia. done.
  - rewrite Z.ones_spec_high, andb_false_r by lia.
    symmetry. apply s_high. lia.
Qed.

End BitFields.

(** Masking with [2^p - 1] gives a number of [p] bits. *)
Lemma land_ones_range (x p : Z) : 0 ≤ p → 0 ≤ Z.land x (Z.ones p) < 2 ^ p.
Proof.
  intros Hp. rewrite Z.land_ones by done.
  apply Z.mod_pos_bound, Z.pow_pos_nonneg; lia.
Qed.

(** ** The loop of lines 36-40 *)

(** When the loop is left, the value it leaves with was drawn, was not in
    the set, and is the only value added to it. *)
Lemma draw_sequence_Some used draws sequence used' rest :
  draw_sequence used draws = Some (sequence, used', rest) →
  sequence ∈ draws ∧ (sequence ∉ used) ∧ used' = ({[sequence]} ∪ used).
Proof.
  induction draws as [|d draws IH]; simpl; [done|].
  case_decide as Hd.
  - intros H. destruct (IH H) as (? & ? & ?).
    split; [by apply list_elem_of_further|done].
  - intros [= <- <- <-]. split; [by apply list_elem_of_here|done].
Qed.

(** The loop goes on exactly as long as the draws are in the set. *)
Lemma draw_sequence_None used draws :
  draw_sequence used draws = None ↔ Forall (λ d, d ∈ used) draws.
Proof.
  induction draws as [|d draws IH]; simpl.
  - split; [constructor|done].
  - rewrite Forall_cons. case_decide as Hd.
    + rewrite IH. tauto.
    + split; [done|tauto].
Qed.

(** The loop is left as soon as a value outside the set is drawn. *)
Lemma draw_sequence_is_Some used draws d :
  d ∈ draws → d ∉ used → is_Some (draw_sequence used draws).
Proof.
  intros Hin Hd.
  destruct (draw_sequence used draws) eqn:E; [by eexists|].
  apply draw_sequence_None in E.
  rewrite Forall_forall in E. naive_solver.
Qed.

(** ** One call of [generate_id] *)

Lemma observe_epoch self timestamp : epoch (observe self timestamp) = epoch self.
Proof. unfold observe. by case_decide. Qed.

Lemma observe_machine_id self timestamp :
  machine_id (observe self timestamp) = machine_id self.
Proof. unfold observe. by case_decide. Qed.

Lemma observe_last_timestamp self timestamp :
  last_timestamp (observe self timestamp) = timestamp.
Proof.
  unfold observe. case_decide as H; [done|]. by symmetry.
Qed.

Lemma observe_generated_sequences self timestamp :
  generated_sequences (observe self timestamp)
  = if decide (timestamp = last_timestamp self) then generated_sequences self else ∅.
Proof. unfold observe. repeat case_decide; naive_solver. Qed.

(** A call that returns: the reading was not behind, the loop allocated
    [sequence], and the object holds the reading and the enlarged set. *)
Lemma generate_id_Returned self timestamp draws id sequence self' rest :
  generate_id self timestamp draws = Returned id sequence self' rest →
  last_timestamp self ≤ timestamp
  ∧ sequence ∈ draws
  ∧ (sequence ∉ generated_sequences (observe self timestamp))
  ∧ id = pack self timestamp sequence
  ∧ self' = Build (epoch self) (machine_id self) timestamp
                  ({[sequence]} ∪ (generated_sequences (observe self timestamp))).
Proof.
  unfold generate_id. case_decide as Hlt; [done|].
  destruct (draw_sequence _ draws) as [[[s used] r]|] eqn:E; [|done].
  intros [= <- <- <- <-].
  apply draw_sequence_Some in E as (? & ? & ->).
  rewrite observe_epoch, observe_machine_id, observe_last_timestamp.
  repeat split; try done; [lia|].
  unfold pack. by rewrite observe_epoch, observe_machine_id.
Qed.

(** A call that raises left the object as it was, and the reading was
    behind. *)
Lemma generate_id_Raised self timestamp draws e self' :
  generate_id self timestamp draws = Raised e self' →
  timestamp < last_timestamp self ∧ e = ClockMovedBackwards ∧ self' = self.
Proof.
  unfold generate_id. case_decide as Hlt.
  - by intros [= <- <-].
  - by destruct (draw_sequence _ draws) as [[[s used] r]|].
Qed.

(** A call returns as soon as a draw outside the set comes up: with a reading
    that is not behind, the call is over once the draws hold one. *)
Lemma generate_id_returns self timestamp draws d :
  last_timestamp self ≤ timestamp →
  d ∈ draws → d ∉ generated_sequences (observe self timestamp) →
  ∃ id sequence self' rest,
    generate_id self timestamp draws = Returned id sequence self' rest.
Proof.
  intros Hle Hin Hd. unfold generate_id.
  case_decide; [lia|].
  destruct (draw_sequence_is_Some _ _ _ Hin Hd) as [[[s used] r] ->].
  by eauto.
Qed.

(** Every state of an object keeps the epoch and the machine id it was
    constructed with. *)
Lemma after_epoch self timestamp draws :
  epoch (after (generate_id self timestamp draws)) = epoch self.
Proof.
  unfold generate_id. case_decide; [done|].
  destruct (draw_sequence _ draws) as [[[s used] r]|]; simpl;
    apply observe_epoch.
Qed.

Lemma after_machine_id self timestamp draws :
  machine_id (after (generate_id self timestamp draws)) = machine_id self.
Proof.
  unfold generate_id. case_decide; [done|].
  destruct (draw_sequence _ draws) as [[[s used] r]|]; simpl;
    apply observe_machine_id.
Qed.

Lemma reachable_fixed self0 self :
  reachable self0 self →
  epoch self = epoch self0 ∧ machine_id self = machine_id self0.
Proof.
  induction 1 as [|self timestamp draws _ [IHe IHm] _]; [done|].
  by rewrite after_epoch, after_machine_id.
Qed.

(** What [__init__] returns. *)
Lemma init_inr epoch machine_id self :
  init epoch machine_id = inr self →
  0 ≤ machine_id ≤ 1023 ∧ self = Build epoch machine_id (-1) ∅.
Proof.
  unfold init. rewrite MAX_MACHINE_ID_eq. simpl.
  case_decide; [done|]. intros [= <-]. split; [lia|done].
Qed.

(** ** Construction *)

(** C6. Constructing a generator raises (the [ValueError] of line 20, the
    spec's InvalidMachineId) exactly when the machine id is below 0 or above
    1023, and otherwise returns an object holding the epoch and the machine
    id as given, whatever the epoch is; -1 and 1024 are rejected, 0 and 1023
    are accepted. *)
Theorem init_validation (epoch machine_id : Z) :
  (init epoch machine_id = inl ValueError ↔ machine_id < 0 ∨ machine_id > 1023)
  ∧ (init epoch machine_id = inr (Build epoch machine_id (-1) ∅)
     ↔ 0 ≤ machine_id ≤ 1023)
  ∧ init epoch (-1) = inl ValueError
  ∧ init epoch 1024 = inl ValueError
  ∧ init epoch 0 = inr (Build epoch 0 (-1) ∅)
  ∧ init epoch 1023 = inr (Build epoch 1023 (-1) ∅).
Proof.
  assert (Hinit : ∀ m,
    init epoch m = if decide (m < 0 ∨ m > 1023)
                   then inl ValueError else inr (Build epoch m (-1) ∅)).
  { intros m. unfold init. rewrite MAX_MACHINE_ID_eq. simpl.
    by repeat case_decide. }
  split_and!; try by rewrite Hinit.
  - rewrite Hinit. case_decide; split; intros; try done; lia.
  - rewrite Hinit. case_decide; split; intros; try done; lia.
Qed.

(** ** The decoder *)

(** C7. On every 64-bit id and every epoch the decoder returns the three
    fields [id & 0xFFF], [(id >> 12) & 0x3FF] and [(id >> 22) + epoch]; it
    is a total function that checks nothing about where the id comes
    from. *)
Theorem parse_snowflake_id_fields (snowflake_id epoch : Z) :
  0 ≤ snowflake_id < 2 ^ 64 →
  parse_snowflake_id snowflake_id epoch
  = (Z.shiftr snowflake_id 22 + epoch,
     Z.land (Z.shiftr snowflake_id 12) 0x3FF,
     Z.land snowflake_id 0xFFF).
Proof. intros _. reflexivity. Qed.

Lemma parse_snowflake_id_fields_witness :
  0 ≤ 6627004526597 < 2 ^ 64
  ∧ parse_snowflake_id 6627004526597 1000 = (1580001 + 1000, 3, 5).
Proof.
  split; [lia|].
  rewrite (parse_snowflake_id_fields 6627004526597 1000) by lia.
  reflexivity.
Defined.

(** C10. Whatever non-negative integer is given as id, of any width, the
    machine id decoded is in [0, 1023] and the sequence decoded is in
    [0, 4095]. *)
Theorem parse_snowflake_id_clamps (snowflake_id epoch : Z) :
  0 ≤ snowflake_id →
  0 ≤ (parse_snowflake_id snowflake_id epoch).1.2 ≤ 1023
  ∧ 0 ≤ (parse_snowflake_id snowflake_id epoch).2 ≤ 4095.
Proof.
  intros _. unfold parse_snowflake_id. simpl.
  rewrite MAX_MACHINE_ID_eq, MAX_SEQUENCE_eq.
  pose proof (land_ones_range (Z.shiftr snowflake_id MACHINE_ID_SHIFT) 10).
  pose proof (land_ones_range snowflake_id 12).
  change (Z.ones 10) with 1023 in *. change (Z.ones 12) with 4095 in *.
  change (2 ^ 10) with 1024 in *. change (2 ^ 12) with 4096 in *.
  lia.
Qed.

Lemma parse_snowflake_id_clamps_witness :
  0 ≤ 2 ^ 70 + 2 ^ 22 - 1
  ∧ 0 ≤ (parse_snowflake_id (2 ^ 70 + 2 ^ 22 - 1) 0).1.2 ≤ 1023
  ∧ 0 ≤ (parse_snowflake_id (2 ^ 70 + 2 ^ 22 - 1) 0).2 ≤ 4095.
Proof.
  split; [lia|].
  apply (parse_snowflake_id_clamps (2 ^ 70 + 2 ^ 22 - 1) 0). lia.
Defined.

(** Decoding a word packed from a machine id and a sequence that fit their
    fields gives back the three parts, for every timestamp delta. *)
Lemma parse_packed (d m s epoch : Z) :
  0 ≤ m ≤ 1023 → 0 ≤ s ≤ 4095 →
  parse_snowflake_id (Z.lor (Z.lor (Z.shiftl d 22) (Z.shiftl m 12)) s) epoch
  = (d + epoch, m, s).
Proof.
  intros Hm Hs. unfold parse_snowflake_id.
  rewrite TIMESTAMP_LEFT_SHIFT_eq, MACHINE_ID_SHIFT_eq,
    MAX_MACHINE_ID_eq, MAX_SEQUENCE_eq.
  by rewrite word_timestamp, word_machine_id, word_sequence.
Qed.

Lemma land_small (x p : Z) : 0 ≤ p → 0 ≤ x < 2 ^ p → Z.land x (Z.ones p) = x.
Proof. intros Hp Hx. rewrite Z.land_ones by done. by apply Z.mod_small. Qed.

(** ** Ids and their fields *)

(** The id a call returns, decoded: the generator was constructed by
    [__init__], so its machine id fits 10 bits, and the sequence comes from
    [random.randint(0, MAX_SEQUENCE)], so it fits 12 bits. *)
Lemma parse_generated epoch machine_id self0 self timestamp draws id sequence self' rest :
  init epoch machine_id = inr self0 →
  reachable self0 self →
  Forall randint_range draws →
  generate_id self timestamp draws = Returned id sequence self' rest →
  0 ≤ machine_id ≤ 1023 ∧ 0 ≤ sequence ≤ 4095
  ∧ id = Z.lor (Z.lor (Z.shiftl (timestamp - epoch) 22) (Z.shiftl machine_id 12))
               sequence
  ∧ parse_snowflake_id id epoch = (timestamp, machine_id, sequence).
Proof.
  intros Hinit Hreach Hdraws Hgen.
  apply init_inr in Hinit as [Hm ->].
  apply reachable_fixed in Hreach as [He Hmid]. simpl in He, Hmid.
  apply generate_id_Returned in Hgen as (_ & Hin & _ & -> & _).
  rewrite Forall_forall in Hdraws. apply Hdraws in Hin.
  unfold randint_range in Hin. rewrite MAX_SEQUENCE_eq in Hin.
  unfold pack. rewrite He, Hmid, TIMESTAMP_LEFT_SHIFT_eq, MACHINE_ID_SHIFT_eq.
  do 3 (split; [done|]).
  rewrite parse_packed by done. do 2 f_equal. lia.
Qed.

(** The usage example: construction succeeds, and a first call at [reading]
    whose first draw is 7 returns at once. *)
Lemma usage_init : init usage_epoch usage_machine_id = inr generator.
Proof. reflexivity. Qed.

Lemma usage_draws : Forall randint_range [7].
Proof. repeat constructor; vm_compute; congruence. Qed.

Lemma usage_first_call :
  generate_id generator reading [7]
  = Returned 20971524103 7 (Build usage_epoch usage_machine_id reading {[7]}) [].
Proof. vm_compute. reflexivity. Qed.

(** C2. Round trip: an id returned by a generator constructed with
    [(epoch, machine_id)] decodes, with the same epoch, to the clock reading
    of the call, the machine id and the sequence allocated by the call. *)
Theorem round_trip epoch machine_id self0 self timestamp draws id sequence self' rest :
  init epoch machine_id = inr self0 →
  reachable self0 self →
  Forall randint_range draws →
  generate_id self timestamp draws = Returned id sequence self' rest →
  parse_snowflake_id id epoch = (timestamp, machine_id, sequence).
Proof. intros. by eapply parse_generated. Qed.

Lemma round_trip_witness :
  init usage_epoch usage_machine_id = inr generator
  ∧ reachable generator generator
  ∧ Forall randint_range [7]
  ∧ generate_id generator reading [7]
    = Returned 20971524103 7 (Build usage_epoch usage_machine_id reading {[7]}) []
  ∧ parse_snowflake_id 20971524103 usage_epoch = (reading, usage_machine_id, 7).
Proof.
  split; [exact usage_init|]. split; [constructor|].
  split; [exact usage_draws|]. split; [exact usage_first_call|].
  exact (round_trip _ _ _ _ _ _ _ _ _ _
           usage_init (reachable_new _) usage_draws usage_first_call).
Defined.

(** C3. Every id a generator returns is
    [(timestampDelta << 22) | (machineId << 12) | sequence] with the machine
    id and the sequence masked to 10 and 12 bits; and a word packed by this
    formula from a machine id in [0, 1023], a sequence in [0, 4095] and a
    timestamp delta that is not negative decodes to these three values (the
    timestamp being the delta plus the epoch), the bounds 0, 1023 and 0, 4095
    included. *)
Theorem packing_fields :
  (∀ epoch machine_id self0 self timestamp draws id sequence self' rest,
     init epoch machine_id = inr self0 →
     reachable self0 self →
     Forall randint_range draws →
     generate_id self timestamp draws = Returned id sequence self' rest →
     id = Z.lor (Z.lor (Z.shiftl (timestamp - epoch) 22)
                       (Z.shiftl (Z.land machine_id 0x3FF) 12))
                (Z.land sequence 0xFFF))
  ∧ (∀ timestampDelta machineId sequence epoch,
       0 ≤ timestampDelta → 0 ≤ machineId ≤ 1023 → 0 ≤ sequence ≤ 4095 →
       parse_snowflake_id
         (Z.lor (Z.lor (Z.shiftl timestampDelta 22) (Z.shiftl machineId 12))
                sequence) epoch
       = (timestampDelta + epoch, machineId, sequence)).
Proof.
  split.
  - intros epoch machine_id self0 self timestamp draws id sequence self' rest
      Hinit Hreach Hdraws Hgen.
    destruct (parse_generated _ _ _ _ _ _ _ _ _ _ Hinit Hreach Hdraws Hgen)
      as (Hm & Hs & -> & _).
    change 0x3FF with (Z.ones 10). change 0xFFF with (Z.ones 12).
    rewrite !land_small; try done.
    + change (2 ^ 12) with 4096. lia.
    + change (2 ^ 10) with 1024. lia.
  - intros d m s epoch _ Hm Hs. by apply parse_packed.
Qed.

Lemma packing_fields_witness :
  20971524103
  = Z.lor (Z.lor (Z.shiftl (reading - usage_epoch) 22)
                 (Z.shiftl (Z.land usage_machine_id 0x3FF) 12))
          (Z.land 7 0xFFF)
  ∧ parse_snowflake_id
      (Z.lor (Z.lor (Z.shiftl 5000 22) (Z.shiftl 0 12)) 0) usage_epoch
    = (5000 + usage_epoch, 0, 0)
  ∧ parse_snowflake_id
      (Z.lor (Z.lor (Z.shiftl 5000 22) (Z.shiftl 1023 12)) 4095) usage_epoch
    = (5000 + usage_epoch, 1023, 4095)
  ∧ parse_snowflake_id
      (Z.lor (Z.lor (Z.shiftl 0 22) (Z.shiftl 1023 12)) 0) 0
    = (0 + 0, 1023, 0).
Proof.
  destruct packing_fields as [Hid Hparse].
  split.
  { exact (Hid _ _ _ _ _ _ _ _ _ _
             usage_init (reachable_new _) usage_draws usage_first_call). }
  split; [apply Hparse; lia|].
  split; apply Hparse; lia.
Defined.

(** ** Clock regression *)

(** C4. When the clock reading of a call is below [last_timestamp], the call
    raises (the [Exception] of line 30, the spec's ClockRegression), returns
    no id, and leaves the object, [last_timestamp] and
    [generated_sequences] included, as it was. *)
Theorem clock_regression self timestamp draws :
  timestamp < last_timestamp self →
  generate_id self timestamp draws = Raised ClockMovedBackwards self.
Proof. intros Hlt. unfold generate_id. by case_decide. Qed.

Lemma clock_regression_witness :
  reading - 1 < last_timestamp (Build usage_epoch usage_machine_id reading {[7]})
  ∧ generate_id (Build usage_epoch usage_machine_id reading {[7]}) (reading - 1) [3]
    = Raised ClockMovedBackwards (Build usage_epoch usage_machine_id reading {[7]}).
Proof.
  split; [vm_compute; reflexivity|].
  apply (clock_regression (Build usage_epoch usage_machine_id reading {[7]})
           (reading - 1) [3]).
  vm_compute. reflexivity.
Defined.

(** ** Timestamps *)

(** C8. Two ids returned by the same generator at clock readings [t1 < t2]
    decode to timestamps in the same order. *)
Theorem monotonic_timestamp epoch machine_id self0
    self1 t1 draws1 id1 sequence1 self1' rest1
    self2 t2 draws2 id2 sequence2 self2' rest2 :
  init epoch machine_id = inr self0 →
  reachable self0 self1 → reachable self0 self2 →
  Forall randint_range draws1 → Forall randint_range draws2 →
  generate_id self1 t1 draws1 = Returned id1 sequence1 self1' rest1 →
  generate_id self2 t2 draws2 = Returned id2 sequence2 self2' rest2 →
  t1 < t2 →
  (parse_snowflake_id id1 epoch).1.1 ≤ (parse_snowflake_id id2 epoch).1.1.
Proof.
  intros Hinit Hr1 Hr2 Hd1 Hd2 Hg1 Hg2 Hlt.
  destruct (parse_generated _ _ _ _ _ _ _ _ _ _ Hinit Hr1 Hd1 Hg1)
    as (_ & _ & _ & ->).
  destruct (parse_generated _ _ _ _ _ _ _ _ _ _ Hinit Hr2 Hd2 Hg2)
    as (_ & _ & _ & ->).
  simpl. lia.
Qed.

(** The usage example goes on: the object after the first call, and a second
    call one millisecond later. *)
Lemma usage_reachable :
  reachable generator (Build usage_epoch usage_machine_id reading {[7]}).
Proof.
  pose proof (reachable_call generator generator reading [7]
                (reachable_new _)) as H.
  rewrite usage_first_call in H. by apply H.
Qed.

Lemma usage_second_call :
  generate_id (Build usage_epoch usage_machine_id reading {[7]}) (reading + 1) [7]
  = Returned 20975718407 7
      (Build usage_epoch usage_machine_id (reading + 1) {[7]}) [].
Proof. vm_compute. reflexivity. Qed.

Lemma monotonic_timestamp_witness :
  reading < reading + 1
  ∧ (parse_snowflake_id 20971524103 usage_epoch).1.1
    ≤ (parse_snowflake_id 20975718407 usage_epoch).1.1.
Proof.
  split; [vm_compute; reflexivity|].
  apply (monotonic_timestamp usage_epoch usage_machine_id generator
           generator reading [7] 20971524103 7
           (Build usage_epoch usage_machine_id reading {[7]}) []
           (Build usage_epoch usage_machine_id reading {[7]}) (reading + 1) [7]
           20975718407 7
           (Build usage_epoch usage_machine_id (reading + 1) {[7]}) []).
  - exact usage_init.
  - constructor.
  - exact usage_reachable.
  - exact usage_draws.
  - exact usage_draws.
  - exact usage_first_call.
  - exact usage_second_call.
  - vm_compute. reflexivity.
Defined.

(** ** What a call changes *)

(** The draws a call consumes: the rejected ones, all in the set, then the
    one it leaves the loop with. *)
Lemma draw_sequence_split used draws sequence used' rest :
  draw_sequence used draws = Some (sequence, used', rest) →
  ∃ rejected,
    draws = rejected ++ sequence :: rest ∧ Forall (λ d, d ∈ used) rejected.
Proof.
  induction draws as [|d draws IH]; simpl; [done|].
  case_decide as Hd.
  - intros H. destruct (IH H) as (rejected & -> & Hrej).
    exists (d :: rejected). split; [done|by constructor].
  - intros [= <- <- <-]. exists []. split; [done|constructor].
Qed.

Lemma generate_id_rest self timestamp draws id sequence self' rest :
  generate_id self timestamp draws = Returned id sequence self' rest →
  ∃ rejected,
    draws = rejected ++ sequence :: rest
    ∧ Forall (λ d, d ∈ generated_sequences (observe self timestamp)) rejected.
Proof.
  unfold generate_id. case_decide as Hlt; [done|].
  destruct (draw_sequence _ draws) as [[[s used] r]|] eqn:E; [|done].
  intros [= <- <- <- <-]. by eapply draw_sequence_split.
Qed.

(** C9. Frame: whatever calls were made on it, a generator constructed with
    [(epoch, machine_id)] still holds that epoch and that machine id; a call
    that returns changes nothing but [last_timestamp], which becomes the
    reading, and [generated_sequences], which is emptied when the reading is
    a new one and gets the allocated sequence; besides that the call only
    consumed draws. *)
Theorem generate_id_frame epoch machine_id self0 self :
  init epoch machine_id = inr self0 →
  reachable self0 self →
  SnowflakeGenerator.epoch self = epoch
  ∧ SnowflakeGenerator.machine_id self = machine_id
  ∧ ∀ timestamp draws id sequence self' rest,
      generate_id self timestamp draws = Returned id sequence self' rest →
      self' = Build epoch machine_id timestamp
                ({[sequence]} ∪ (if decide (timestamp = last_timestamp self)
                                 then generated_sequences self else ∅))
      ∧ ∃ rejected, draws = rejected ++ sequence :: rest.
Proof.
  intros Hinit Hreach.
  apply init_inr in Hinit as [_ ->].
  apply reachable_fixed in Hreach as [He Hm]. simpl in He, Hm.
  do 2 (split; [done|]).
  intros timestamp draws id sequence self' rest Hgen.
  destruct (generate_id_rest _ _ _ _ _ _ _ Hgen) as (rejected & Hdraws & _).
  apply generate_id_Returned in Hgen as (_ & _ & _ & _ & ->).
  rewrite observe_generated_sequences, He, Hm. eauto.
Qed.

Lemma generate_id_frame_witness :
  init usage_epoch usage_machine_id = inr generator
  ∧ reachable generator (Build usage_epoch usage_machine_id reading {[7]})
  ∧ epoch (Build usage_epoch usage_machine_id reading {[7]}) = usage_epoch
  ∧ machine_id (Build usage_epoch usage_machine_id reading {[7]}) = usage_machine_id
  ∧ Build usage_epoch usage_machine_id (reading + 1) {[7]}
    = Build usage_epoch usage_machine_id (reading + 1) ({[7]} ∪ ∅).
Proof.
  split; [exact usage_init|]. split; [exact usage_reachable|].
  destruct (generate_id_frame usage_epoch usage_machine_id generator
              (Build usage_epoch usage_machine_id reading {[7]})
              usage_init usage_reachable) as (He & Hm & Hcall).
  split; [exact He|]. split; [exact Hm|].
  destruct (Hcall _ _ _ _ _ _ usage_second_call) as [Hself' _].
  exact Hself'.
Defined.

(** ** Calls within one millisecond *)

Lemma randint_range_rest self timestamp draws id sequence self' rest :
  Forall randint_range draws →
  generate_id self timestamp draws = Returned id sequence self' rest →
  randint_range sequence ∧ Forall randint_range rest.
Proof.
  intros Hdraws Hgen.
  destruct (generate_id_rest _ _ _ _ _ _ _ Hgen) as (rejected & -> & _).
  apply Forall_app in Hdraws as [_ Hdraws].
  by apply Forall_cons in Hdraws.
Qed.

(** The low 12 bits of an id are the sequence it was packed from. *)
Lemma pack_sequence self timestamp sequence :
  randint_range sequence →
  Z.land (pack self timestamp sequence) MAX_SEQUENCE = sequence.
Proof.
  unfold randint_range, pack.
  rewrite MAX_SEQUENCE_eq, TIMESTAMP_LEFT_SHIFT_eq, MACHINE_ID_SHIFT_eq.
  apply word_sequence.
Qed.

(** With draws in range, the sequences allocated by a series of calls are
    the low 12 bits of the ids returned. *)
Lemma sequences_of_ids clock : ∀ self draws,
  Forall randint_range draws →
  sequences_of (calls self clock draws)
  = (λ id, Z.land id MAX_SEQUENCE) <$> ids_of (calls self clock draws).
Proof.
  induction clock as [|timestamp clock IH]; intros self draws Hdraws; [done|].
  simpl. destruct (generate_id self timestamp draws)
    as [id sequence self' rest|e self'|self'] eqn:Hgen; [| |done].
  - destruct (randint_range_rest _ _ _ _ _ _ _ Hdraws Hgen) as [Hs Hrest].
    apply generate_id_Returned in Hgen as (_ & _ & _ & -> & _).
    unfold sequences_of, ids_of in *. simpl.
    rewrite pack_sequence by done. f_equal. by apply IH.
  - unfold sequences_of, ids_of in *. simpl. by apply IH.
Qed.

(** Calls at one clock reading allocate sequences that differ from one
    another and, when the object already stands at that reading, from the
    ones in its set. *)
Lemma frozen_sequences timestamp n : ∀ self draws,
  NoDup (sequences_of (calls self (replicate n timestamp) draws))
  ∧ (last_timestamp self = timestamp →
     ∀ s, s ∈ sequences_of (calls self (replicate n timestamp) draws) →
          s ∉ generated_sequences self).
Proof.
  induction n as [|n IH]; intros self draws.
  { split; [constructor|]. intros _ s Hs. by apply not_elem_of_nil in Hs. }
  simpl. destruct (generate_id self timestamp draws)
    as [id sequence self' rest|e self'|self'] eqn:Hgen.
  - apply generate_id_Returned in Hgen as (_ & _ & Hfresh & _ & ->).
    destruct (IH (Build (epoch self) (machine_id self) timestamp
                    ({[sequence]} ∪ generated_sequences (observe self timestamp)))
                 rest) as [Hnodup Hnew].
    specialize (Hnew eq_refl). simpl in Hnew.
    unfold sequences_of in *. simpl. split.
    + apply NoDup_cons. split; [|done].
      intros Hin. apply Hnew in Hin.
      apply Hin, elem_of_union_l. by apply elem_of_singleton.
    + intros Hlast s Hs.
      rewrite observe_generated_sequences in Hfresh, Hnew, Hs.
      rewrite decide_True in Hfresh, Hnew, Hs by done.
      apply elem_of_cons in Hs as [->|Hs]; [done|].
      apply Hnew in Hs. intros Hin. by apply Hs, elem_of_union_r.
  - apply generate_id_Raised in Hgen as (Hlt & _ & ->).
    destruct (IH self draws) as [Hnodup Hnew].
    unfold sequences_of in *. simpl. split; [done|]. lia.
  - unfold sequences_of. simpl. split; [constructor|].
    intros _ s Hs. by apply not_elem_of_nil in Hs.
Qed.

(** C1. However many calls are made on a generator while the clock reading
    stays at one value, 4096 or fewer in particular, the calls that return
    allocate sequences that are all different, and so return ids that are
    all different. *)
Theorem frozen_clock_unique self timestamp (n : nat) draws :
  (n ≤ 4096)%nat →
  Forall randint_range draws →
  NoDup (sequences_of (calls self (replicate n timestamp) draws))
  ∧ NoDup (ids_of (calls self (replicate n timestamp) draws)).
Proof.
  intros _ Hdraws.
  destruct (frozen_sequences timestamp n self draws) as [Hnodup _].
  split; [done|].
  rewrite sequences_of_ids in Hnodup by done.
  by apply NoDup_fmap_1 in Hnodup.
Qed.

Lemma frozen_clock_unique_witness :
  (3 ≤ 4096)%nat
  ∧ Forall randint_range [7; 7; 3; 7; 3; 9]
  ∧ sequences_of (calls generator (replicate 3 reading) [7; 7; 3; 7; 3; 9])
    = [7; 3; 9]
  ∧ NoDup (sequences_of (calls generator (replicate 3 reading) [7; 7; 3; 7; 3; 9]))
  ∧ NoDup (ids_of (calls generator (replicate 3 reading) [7; 7; 3; 7; 3; 9])).
Proof.
  assert (Hn : (3 ≤ 4096)%nat) by lia.
  assert (Hdraws : Forall randint_range [7; 7; 3; 7; 3; 9])
    by (repeat constructor; vm_compute; congruence).
  split; [exact Hn|]. split; [exact Hdraws|].
  split; [vm_compute; reflexivity|].
  exact (frozen_clock_unique generator reading 3 [7; 7; 3; 7; 3; 9] Hn Hdraws).
Defined.

(** ** The set is full *)

(** Recording the same reading twice is recording it once. *)
Lemma observe_idemp self timestamp :
  observe (observe self timestamp) timestamp = observe self timestamp.
Proof.
  unfold observe at 1. rewrite observe_last_timestamp.
  by rewrite decide_False by (intros H; by apply H).
Qed.

(** A reading that is not behind is first recorded: the call goes on from
    the object as lines 32-34 leave it. *)
Lemma generate_id_observe self timestamp draws :
  last_timestamp self ≤ timestamp →
  generate_id self timestamp draws
  = generate_id (observe self timestamp) timestamp draws.
Proof.
  intros Hle. unfold generate_id. rewrite observe_idemp.
  rewrite (decide_False (P := timestamp < last_timestamp self)) by lia.
  by rewrite (decide_False (P := timestamp < last_timestamp (observe self timestamp)))
    by (rewrite observe_last_timestamp; lia).
Qed.

(** A call in a new millisecond returns with its first draw. *)
Lemma generate_id_new_millisecond self timestamp d draws :
  last_timestamp self < timestamp →
  generate_id self timestamp (d :: draws)
  = Returned (pack self timestamp d) d
      (Build (epoch self) (machine_id self) timestamp {[d]}) draws.
Proof.
  intros Hlt. unfold generate_id, observe.
  rewrite decide_False by lia. rewrite decide_True by lia. simpl.
  rewrite decide_False by apply not_elem_of_empty.
  by rewrite (right_id_L ∅ (∪)).
Qed.

(** A call in the millisecond the object stands at returns with its first
    draw when that one is not in the set. *)
Lemma generate_id_fresh self d draws :
  d ∉ generated_sequences self →
  generate_id self (last_timestamp self) (d :: draws)
  = Returned (pack self (last_timestamp self) d) d
      (Build (epoch self) (machine_id self) (last_timestamp self)
         ({[d]} ∪ generated_sequences self)) draws.
Proof.
  intros Hd. unfold generate_id, observe.
  rewrite decide_False by lia.
  rewrite decide_False by (intros H; by apply H).
  simpl. by rewrite decide_False by done.
Qed.

(** Calls at the reading the object stands at, each with a draw that was
    not seen before: every call returns at once, and the draws end up in the
    set. *)
Lemma calls_fresh timestamp l : ∀ self clock more,
  last_timestamp self = timestamp →
  NoDup l →
  (∀ d, d ∈ l → d ∉ generated_sequences self) →
  ∃ os,
    calls self (replicate (length l) timestamp ++ clock) (l ++ more)
    = os ++ calls (Build (epoch self) (machine_id self) timestamp
                     (list_to_set l ∪ generated_sequences self)) clock more
    ∧ sequences_of os = l
    ∧ ids_of os = pack self timestamp <$> l.
Proof.
  induction l as [|d l IH]; intros self clock more Hlast Hnodup Hfresh.
  { exists []. simpl. rewrite (left_id_L ∅ (∪)).
    destruct self as [e m lt used]. simpl in Hlast. by subst. }
  apply NoDup_cons in Hnodup as [Hd Hnodup].
  destruct (IH (Build (epoch self) (machine_id self) timestamp
                  ({[d]} ∪ generated_sequences self)) clock more)
    as (os & Hcalls & Hseqs & Hids); [done|done| |].
  { simpl. intros d' Hd' [Heq%elem_of_singleton|Hin]%elem_of_union.
    - by subst.
    - apply (Hfresh d'); [by apply list_elem_of_further|done]. }
  simpl in Hcalls.
  exists (Returned (pack self timestamp d) d
            (Build (epoch self) (machine_id self) timestamp
               ({[d]} ∪ generated_sequences self)) (l ++ more) :: os).
  simpl. subst timestamp.
  rewrite generate_id_fresh by (apply Hfresh, list_elem_of_here).
  rewrite Hcalls. split; [|split].
  - do 3 f_equal. by rewrite (assoc_L (∪)), (comm_L (∪) _ {[d]}).
  - unfold sequences_of in *. simpl. by f_equal.
  - unfold ids_of in *. simpl. by f_equal.
Qed.

(** Once every value of the range is in the set and the reading is the one
    the object stands at, every draw is rejected: the call does not
    return, however many draws it is given. *)
Lemma generate_id_exhausted self draws :
  exhausted self →
  Forall randint_range draws →
  generate_id self (last_timestamp self) draws = Looping self.
Proof.
  intros Hfull Hdraws. unfold generate_id, observe.
  rewrite decide_False by lia.
  rewrite decide_False by (intros H; by apply H).
  assert (draw_sequence (generated_sequences self) draws = None) as ->; [|done].
  apply draw_sequence_None. eapply Forall_impl; [exact Hdraws|]. apply Hfull.
Qed.

Lemma calls_observe self timestamp (n : nat) clock draws :
  last_timestamp self ≤ timestamp → (0 < n)%nat →
  calls self (replicate n timestamp ++ clock) draws
  = calls (observe self timestamp) (replicate n timestamp ++ clock) draws.
Proof.
  intros Hle Hn. destruct n as [|n]; [lia|].
  simpl. by rewrite generate_id_observe.
Qed.

Lemma all_sequences_range d : randint_range d ↔ d ∈ all_sequences.
Proof. unfold randint_range, all_sequences. rewrite elem_of_seqZ. lia. Qed.

Lemma all_sequences_length : length all_sequences = Z.to_nat 4096.
Proof. unfold all_sequences. by rewrite length_seqZ, MAX_SEQUENCE_eq. Qed.

(** Nothing follows a call that does not return. *)
Lemma calls_looping self timestamp clock draws self' :
  generate_id self timestamp draws = Looping self' →
  calls self (timestamp :: clock) draws = [Looping self'].
Proof. intros H. cbn [calls]. by rewrite H. Qed.

(** C5, on the code.  A generator is constructed and called 4097 times at
    one clock reading, the draws being 0, 1, ..., 4095 and then any values
    of the range.  The first 4096 calls return, with the sequences
    0, ..., 4095; the set then holds the whole range, and the last call
    rejects every draw it is given: it does not return. *)
Theorem exhausted_call_loops epoch machine_id self timestamp more :
  init epoch machine_id = inr self →
  0 ≤ timestamp →
  Forall randint_range more →
  ∃ os full,
    calls self (replicate (Z.to_nat 4096) timestamp ++ [timestamp])
      (all_sequences ++ more)
    = os ++ [Looping full]
    ∧ sequences_of os = all_sequences
    ∧ ids_of os = pack self timestamp <$> all_sequences
    ∧ exhausted full
    ∧ full = Build epoch machine_id timestamp (list_to_set all_sequences).
Proof.
  intros Hinit Ht Hmore.
  apply init_inr in Hinit as [_ ->].
  rewrite calls_observe; [|cbn [last_timestamp]; lia|lia].
  replace (observe (Build epoch machine_id (-1) ∅) timestamp)
    with (Build epoch machine_id timestamp ∅); cycle 1.
  { unfold observe. cbn [last_timestamp SnowflakeGenerator.epoch SnowflakeGenerator.machine_id].
    by rewrite decide_True by lia. }
  rewrite <- all_sequences_length.
  destruct (calls_fresh timestamp all_sequences
              (Build epoch machine_id timestamp ∅) [timestamp] more)
    as (os & Hcalls & Hseqs & Hids);
    [reflexivity|apply NoDup_seqZ|intros d _; apply not_elem_of_empty|].
  cbn [SnowflakeGenerator.epoch SnowflakeGenerator.machine_id generated_sequences] in Hcalls.
  rewrite (right_id_L ∅ (∪)) in Hcalls.
  assert (Hfull : exhausted
            (Build epoch machine_id timestamp (list_to_set all_sequences))).
  { intros d Hd. cbn [generated_sequences].
    by apply elem_of_list_to_set, all_sequences_range. }
  pose proof (generate_id_exhausted _ more Hfull Hmore) as Hloop.
  cbn [last_timestamp] in Hloop.
  exists os, (Build epoch machine_id timestamp (list_to_set all_sequences)).
  split.
  { etrans; [exact Hcalls|]. f_equal. apply calls_looping. exact Hloop. }
  split; [exact Hseqs|]. split; [exact Hids|]. split; [exact Hfull|reflexivity].
Qed.

Lemma exhausted_call_loops_witness :
  init usage_epoch usage_machine_id = inr generator
  ∧ 0 ≤ reading
  ∧ Forall randint_range [7; 3; 9]
  ∧ ∃ os full,
      calls generator (replicate (Z.to_nat 4096) reading ++ [reading])
        (all_sequences ++ [7; 3; 9])
      = os ++ [Looping full]
      ∧ sequences_of os = all_sequences
      ∧ ids_of os = pack generator reading <$> all_sequences
      ∧ exhausted full
      ∧ full = Build usage_epoch usage_machine_id reading (list_to_set all_sequences).
Proof.
  assert (Ht : 0 ≤ reading) by (vm_compute; congruence).
  assert (Hdraws : Forall randint_range [7; 3; 9])
    by (repeat constructor; vm_compute; congruence).
  split; [exact usage_init|]. split; [exact Ht|]. split; [exact Hdraws|].
  exact (exhausted_call_loops usage_epoch usage_machine_id generator reading
           [7; 3; 9] usage_init Ht Hdraws).
Defined.

(** ** The id as a number *)

Lemma lor_disjoint_add (x y : Z) : Z.land x y = 0 → Z.lor x y = x + y.
Proof. intros H. pose proof (Z.add_lor_land x y) as Hadd. lia. Qed.

(** With a machine id and a sequence that fit their fields, the three parts
    of the packed word do not overlap: the word is their sum. *)
Lemma word_value (d m s : Z) :
  0 ≤ m ≤ 1023 → 0 ≤ s ≤ 4095 →
  Z.lor (Z.lor (Z.shiftl d 22) (Z.shiftl m 12)) s
  = d * 4194304 + m * 4096 + s.
Proof.
  intros Hm Hs.
  assert (Hmh : ∀ i, 10 ≤ i → Z.testbit m i = false).
  { intros i Hi. apply (testbit_high 10); [change (2 ^ 10) with 1024|]; lia. }
  assert (Hsh : ∀ i, 12 ≤ i → Z.testbit s i = false).
  { intros i Hi. apply (testbit_high 12); [change (2 ^ 12) with 4096|]; lia. }
  assert (H1 : Z.land (Z.shiftl d 22) (Z.shiftl m 12) = 0).
  { apply Z.bits_inj'; intros i Hi.
    rewrite Z.land_spec, !Z.shiftl_spec, Z.bits_0 by lia.
    destruct (decide (i < 22)).
    - by rewrite (Z.testbit_neg_r d) by lia.
    - by rewrite Hmh, andb_false_r by lia. }
  assert (H2 : Z.land (Z.lor (Z.shiftl d 22) (Z.shiftl m 12)) s = 0).
  { apply Z.bits_inj'; intros i Hi.
    rewrite Z.land_spec, Z.lor_spec, !Z.shiftl_spec, Z.bits_0 by lia.
    destruct (decide (i < 12)).
    - by rewrite (Z.testbit_neg_r d), (Z.testbit_neg_r m) by lia.
    - by rewrite Hsh, andb_false_r by lia. }
  rewrite (lor_disjoint_add _ _ H2), (lor_disjoint_add _ _ H1).
  rewrite !Z.shiftl_mul_pow2 by lia. reflexivity.
Qed.

(** The id of a call as a number. *)
Lemma generated_value epoch machine_id self0 self timestamp draws id sequence self' rest :
  init epoch machine_id = inr self0 →
  reachable self0 self →
  Forall randint_range draws →
  generate_id self timestamp draws = Returned id sequence self' rest →
  0 ≤ machine_id ≤ 1023 ∧ 0 ≤ sequence ≤ 4095
  ∧ id = (timestamp - epoch) * 4194304 + machine_id * 4096 + sequence.
Proof.
  intros Hinit Hreach Hdraws Hgen.
  destruct (parse_generated _ _ _ _ _ _ _ _ _ _ Hinit Hreach Hdraws Hgen)
    as (Hm & Hs & -> & _).
  by rewrite word_value.
Qed.

(** X1. Ids sort by time: of two ids returned by generators with the same
    epoch, whatever their machine ids, the one of the earlier clock reading
    is the smaller number. *)
Theorem ids_sort_by_time epoch
    machine_id1 self01 self1 t1 draws1 id1 sequence1 self1' rest1
    machine_id2 self02 self2 t2 draws2 id2 sequence2 self2' rest2 :
  init epoch machine_id1 = inr self01 → reachable self01 self1 →
  init epoch machine_id2 = inr self02 → reachable self02 self2 →
  Forall randint_range draws1 → Forall randint_range draws2 →
  generate_id self1 t1 draws1 = Returned id1 sequence1 self1' rest1 →
  generate_id self2 t2 draws2 = Returned id2 sequence2 self2' rest2 →
  t1 < t2 →
  id1 < id2.
Proof.
  intros Hi1 Hr1 Hi2 Hr2 Hd1 Hd2 Hg1 Hg2 Hlt.
  destruct (generated_value _ _ _ _ _ _ _ _ _ _ Hi1 Hr1 Hd1 Hg1) as (? & ? & ->).
  destruct (generated_value _ _ _ _ _ _ _ _ _ _ Hi2 Hr2 Hd2 Hg2) as (? & ? & ->).
  lia.
Qed.

Lemma ids_sort_by_time_witness :
  reading < reading + 1 ∧ 20971524103 < 20975718407.
Proof.
  split; [vm_compute; reflexivity|].
  exact (ids_sort_by_time usage_epoch
           usage_machine_id generator generator reading [7] 20971524103 7
           (Build usage_epoch usage_machine_id reading {[7]}) []
           usage_machine_id generator
           (Build usage_epoch usage_machine_id reading {[7]}) (reading + 1) [7]
           20975718407 7
           (Build usage_epoch usage_machine_id (reading + 1) {[7]}) []
           usage_init (reachable_new _) usage_init usage_reachable
           usage_draws usage_draws usage_first_call usage_second_call
           ltac:(vm_compute; reflexivity)).
Defined.

(** X2. The id fits 63 bits as long as the clock is not before the epoch and
    less than 2^41 milliseconds after it; and an id is negative exactly when
    the clock reading is before the epoch. *)
Theorem id_width epoch machine_id self0 self timestamp draws id sequence self' rest :
  init epoch machine_id = inr self0 →
  reachable self0 self →
  Forall randint_range draws →
  generate_id self timestamp draws = Returned id sequence self' rest →
  (id < 0 ↔ timestamp < epoch)
  ∧ (0 ≤ timestamp - epoch < 2 ^ 41 → 0 ≤ id < 2 ^ 63).
Proof.
  intros Hinit Hreach Hdraws Hgen.
  destruct (generated_value _ _ _ _ _ _ _ _ _ _ Hinit Hreach Hdraws Hgen)
    as (? & ? & ->).
  change (2 ^ 41) with 2199023255552.
  change (2 ^ 63) with 9223372036854775808.
  lia.
Qed.

Lemma id_width_witness :
  (20971524103 < 0 ↔ reading < usage_epoch)
  ∧ (0 ≤ reading - usage_epoch < 2 ^ 41 → 0 ≤ 20971524103 < 2 ^ 63).
Proof.
  exact (id_width _ _ _ _ _ _ _ _ _ _
           usage_init (reachable_new _) usage_draws usage_first_call).
Defined.

(** X3. Generators with the same epoch and different machine ids never
    return the same id. *)
Theorem machine_ids_distinguish epoch
    machine_id1 self01 self1 t1 draws1 id1 sequence1 self1' rest1
    machine_id2 self02 self2 t2 draws2 id2 sequence2 self2' rest2 :
  init epoch machine_id1 = inr self01 → reachable self01 self1 →
  init epoch machine_id2 = inr self02 → reachable self02 self2 →
  Forall randint_range draws1 → Forall randint_range draws2 →
  generate_id self1 t1 draws1 = Returned id1 sequence1 self1' rest1 →
  generate_id self2 t2 draws2 = Returned id2 sequence2 self2' rest2 →
  machine_id1 ≠ machine_id2 →
  id1 ≠ id2.
Proof.
  intros Hi1 Hr1 Hi2 Hr2 Hd1 Hd2 Hg1 Hg2 Hne Heq. subst id2.
  destruct (parse_generated _ _ _ _ _ _ _ _ _ _ Hi1 Hr1 Hd1 Hg1)
    as (_ & _ & _ & H1).
  destruct (parse_generated _ _ _ _ _ _ _ _ _ _ Hi2 Hr2 Hd2 Hg2)
    as (_ & _ & _ & H2).
  congruence.
Qed.

Lemma machine_ids_distinguish_witness :
  usage_machine_id ≠ 2 ∧ 20971524103 ≠ 20971528199.
Proof.
  split; [vm_compute; congruence|].
  apply (machine_ids_distinguish usage_epoch
           usage_machine_id generator generator reading [7] 20971524103 7
           (Build usage_epoch usage_machine_id reading {[7]}) []
           2 (Build usage_epoch 2 (-1) ∅) (Build usage_epoch 2 (-1) ∅)
           reading [7] 20971528199 7 (Build usage_epoch 2 reading {[7]}) []).
  - exact usage_init.
  - constructor.
  - reflexivity.
  - constructor.
  - exact usage_draws.
  - exact usage_draws.
  - exact usage_first_call.
  - vm_compute. reflexivity.
  - vm_compute. congruence.
Defined.

(** ** Decoding and packing again *)

(** X4. The decoder loses nothing: packing the three fields it returns for
    an integer, any integer, gives this integer back. *)
Theorem parse_then_pack (snowflake_id epoch : Z) :
  Z.lor (Z.lor (Z.shiftl ((parse_snowflake_id snowflake_id epoch).1.1 - epoch) 22)
               (Z.shiftl (parse_snowflake_id snowflake_id epoch).1.2 12))
        (parse_snowflake_id snowflake_id epoch).2
  = snowflake_id.
Proof.
  unfold parse_snowflake_id. cbn [fst snd].
  rewrite TIMESTAMP_LEFT_SHIFT_eq, MACHINE_ID_SHIFT_eq,
    MAX_MACHINE_ID_eq, MAX_SEQUENCE_eq.
  replace (Z.shiftr snowflake_id 22 + epoch - epoch)
    with (Z.shiftr snowflake_id 22) by lia.
  change 1023 with (Z.ones 10). change 4095 with (Z.ones 12).
  apply Z.bits_inj'; intros i Hi.
  rewrite !Z.lor_spec, !Z.shiftl_spec, !Z.land_spec by lia.
  destruct (decide (i < 12)); [|destruct (decide (i < 22))].
  - rewrite (Z.testbit_neg_r _ (i - 22)), !(Z.testbit_neg_r _ (i - 12)) by lia.
    by rewrite (Z.ones_spec_low 12), andb_true_r by lia.
  - rewrite (Z.testbit_neg_r _ (i - 22)) by lia.
    rewrite Z.shiftr_spec by lia.
    rewrite (Z.ones_spec_low 10), (Z.ones_spec_high 12) by lia.
    replace (i - 12 + 12) with i by lia.
    by rewrite andb_true_r, andb_false_r, orb_false_r.
  - rewrite !Z.shiftr_spec by lia.
    rewrite (Z.ones_spec_high 10), (Z.ones_spec_high 12) by lia.
    replace (i - 22 + 22) with i by lia.
    by rewrite !andb_false_r, !orb_false_r.
Qed.

(** ** All the ids of a generator *)

Lemma parse_pack self timestamp sequence :
  0 ≤ machine_id self ≤ 1023 → randint_range sequence →
  parse_snowflake_id (pack self timestamp sequence) (epoch self)
  = (timestamp, machine_id self, sequence).
Proof.
  intros Hm Hs. unfold randint_range in Hs. rewrite MAX_SEQUENCE_eq in Hs.
  unfold pack. rewrite TIMESTAMP_LEFT_SHIFT_eq, MACHINE_ID_SHIFT_eq.
  rewrite parse_packed by done. do 2 f_equal. lia.
Qed.

(** What a call that returns means for staleness: the id it returns was not
    stale and now is, and the ids that were stale still are. *)
Lemma generate_id_stale self timestamp draws id sequence self' rest :
  0 ≤ machine_id self ≤ 1023 →
  Forall randint_range draws →
  generate_id self timestamp draws = Returned id sequence self' rest →
  randint_range sequence
  ∧ parse_snowflake_id id (epoch self) = (timestamp, machine_id self, sequence)
  ∧ ¬ stale self id
  ∧ stale self' id
  ∧ (∀ x, stale self x → stale self' x).
Proof.
  intros Hm Hdraws Hgen.
  destruct (randint_range_rest _ _ _ _ _ _ _ Hdraws Hgen) as [Hs _].
  apply generate_id_Returned in Hgen as (Hle & _ & Hfresh & -> & ->).
  rewrite observe_generated_sequences in *.
  pose proof (parse_pack self timestamp sequence Hm Hs) as Hparse.
  split; [done|]. split; [done|].
  unfold stale. cbn [SnowflakeGenerator.epoch last_timestamp generated_sequences].
  rewrite Hparse. split; [|split].
  - intros [Hlt|[Heq Hin]]; [lia|].
    by rewrite decide_True in Hfresh.
  - right. split; [done|]. by apply elem_of_union_l, elem_of_singleton.
  - intros x. destruct (parse_snowflake_id x (epoch self)) as [[tx mx] sx].
    intros [Hlt|[Heq Hin]]; [left; lia|].
    destruct (decide (timestamp = last_timestamp self)) as [->|Hne].
    + right. split; [done|]. by apply elem_of_union_r.
    + left. lia.
Qed.

(** The ids a series of calls returns are all different, and none of them
    is stale for the object the series starts from. *)
Lemma calls_ids_fresh clock : ∀ self draws,
  0 ≤ machine_id self ≤ 1023 →
  Forall randint_range draws →
  NoDup (ids_of (calls self clock draws))
  ∧ ∀ id, id ∈ ids_of (calls self clock draws) → ¬ stale self id.
Proof.
  induction clock as [|timestamp clock IH]; intros self draws Hm Hdraws.
  { split; [constructor|]. intros id Hid. by apply not_elem_of_nil in Hid. }
  cbn [calls]. destruct (generate_id self timestamp draws)
    as [id sequence self' rest|e self'|self'] eqn:Hgen.
  - destruct (randint_range_rest _ _ _ _ _ _ _ Hdraws Hgen) as [_ Hrest].
    destruct (generate_id_stale _ _ _ _ _ _ _ Hm Hdraws Hgen)
      as (_ & _ & Hnew & Hold & Hmono).
    pose proof (after_machine_id self timestamp draws) as Hm'.
    rewrite Hgen in Hm'. cbn [after] in Hm'.
    destruct (IH self' rest) as [Hnodup Hfresh]; [by rewrite Hm'|done|].
    unfold ids_of in *. cbn [omap]. split.
    + apply NoDup_cons. split; [|done]. intros Hin. by apply (Hfresh id).
    + intros x [->|Hx]%elem_of_cons; [done|].
      intros Hstale. by apply (Hfresh x), Hmono.
  - apply generate_id_Raised in Hgen as (_ & _ & ->).
    unfold ids_of in *. cbn [omap]. by apply IH.
  - unfold ids_of. cbn [omap]. split; [constructor|].
    intros id Hid. by apply not_elem_of_nil in Hid.
Qed.

(** X5. One generator never returns the same id twice: whatever the clock
    readings of a series of calls, raising calls included, the ids returned
    are all different. *)
Theorem ids_unique epoch machine_id self0 self clock draws :
  init epoch machine_id = inr self0 →
  reachable self0 self →
  Forall randint_range draws →
  NoDup (ids_of (calls self clock draws)).
Proof.
  intros Hinit Hreach Hdraws.
  apply init_inr in Hinit as [Hm ->].
  apply reachable_fixed in Hreach as [_ Hmid]. simpl in Hmid.
  apply calls_ids_fresh; [by rewrite Hmid|done].
Qed.

Lemma ids_unique_witness :
  Forall randint_range [7; 7; 3; 7]
  ∧ ids_of (calls generator [reading; reading; reading - 1; reading + 1] [7; 7; 3; 7])
    = [20971524103; 20971524099; 20975718407]
  ∧ NoDup (ids_of (calls generator [reading; reading; reading - 1; reading + 1]
                     [7; 7; 3; 7])).
Proof.
  assert (Hdraws : Forall randint_range [7; 7; 3; 7])
    by (repeat constructor; vm_compute; congruence).
  split; [exact Hdraws|]. split; [vm_compute; reflexivity|].
  exact (ids_unique usage_epoch usage_machine_id generator generator
           [reading; reading; reading - 1; reading + 1] [7; 7; 3; 7]
           usage_init (reachable_new _) Hdraws).
Defined.

(** ** When a call returns *)

(** X6. A call returns exactly when its reading is not behind
    [last_timestamp] and one of its draws is outside the set of the current
    millisecond (the empty set, when the reading is a new one); it raises
    exactly when the reading is behind. *)
Theorem generate_id_returns_iff self timestamp draws :
  ((∃ id sequence self' rest,
      generate_id self timestamp draws = Returned id sequence self' rest)
   ↔ last_timestamp self ≤ timestamp
     ∧ ∃ d, d ∈ draws ∧ d ∉ generated_sequences (observe self timestamp))
  ∧ ((∃ e self', generate_id self timestamp draws = Raised e self')
     ↔ timestamp < last_timestamp self).
Proof.
  split; split.
  - intros (id & sequence & self' & rest & Hgen).
    apply generate_id_Returned in Hgen as (Hle & Hin & Hfresh & _).
    split; [done|]. by exists sequence.
  - intros (Hle & d & Hin & Hd). by eapply generate_id_returns.
  - intros (e & self' & Hgen). by apply generate_id_Raised in Hgen as (? & _).
  - intros Hlt. exists ClockMovedBackwards, self.
    unfold generate_id. by rewrite decide_True.
Qed.

(** ** What the object holds *)

(** The sequences a series of calls allocates are draws. *)
Lemma sequences_of_draws clock : ∀ self draws s,
  s ∈ sequences_of (calls self clock draws) → s ∈ draws.
Proof.
  induction clock as [|timestamp clock IH]; intros self draws s.
  { intros Hs. by apply not_elem_of_nil in Hs. }
  cbn [calls]. destruct (generate_id self timestamp draws)
    as [id sequence self' rest|e self'|self'] eqn:Hgen;
    unfold sequences_of in *; cbn [omap].
  - destruct (generate_id_rest _ _ _ _ _ _ _ Hgen) as (rejected & -> & _).
    intros [->|Hs]%elem_of_cons.
    + apply elem_of_app. right. apply list_elem_of_here.
    + apply elem_of_app. right. apply list_elem_of_further. by eapply IH.
  - apply IH.
  - intros Hs. by apply not_elem_of_nil in Hs.
Qed.

Lemma ids_of_length os : length (ids_of os) = length (sequences_of os).
Proof.
  unfold ids_of, sequences_of.
  induction os as [|[id sequence self' rest|e self'|self'] os IH];
    simpl; [done|f_equal; exact IH|exact IH|exact IH].
Qed.

(** X7. One millisecond has room for 4096 ids: however many calls are made
    at one clock reading, at most 4096 of them return. *)
Theorem frozen_clock_capacity self timestamp (n : nat) draws :
  Forall randint_range draws →
  (length (ids_of (calls self (replicate n timestamp) draws)) ≤ Z.to_nat 4096)%nat.
Proof.
  intros Hdraws. rewrite ids_of_length, <- all_sequences_length.
  apply submseteq_length, NoDup_submseteq.
  - apply frozen_sequences.
  - intros s Hs. apply all_sequences_range.
    apply sequences_of_draws in Hs.
    rewrite Forall_forall in Hdraws. by apply Hdraws.
Qed.

Lemma frozen_clock_capacity_witness :
  Forall randint_range [7; 7; 3; 7; 3; 9]
  ∧ (length (ids_of (calls generator (replicate 5 reading)
                       [7; 7; 3; 7; 3; 9]%Z))
     ≤ Z.to_nat 4096)%nat.
Proof.
  assert (Hdraws : Forall randint_range [7; 7; 3; 7; 3; 9])
    by (repeat constructor; vm_compute; congruence).
  split; [exact Hdraws|].
  exact (frozen_clock_capacity generator reading 5 [7; 7; 3; 7; 3; 9] Hdraws).
Defined.

(** X8. The set of the object stays small: after every call of a series made
    on a new generator with draws in range, [generated_sequences] holds
    values of [0, 4095] only, so at most 4096 of them, and [last_timestamp]
    is -1 or more. *)
Theorem object_bounds epoch machine_id self0 clock draws :
  init epoch machine_id = inr self0 →
  Forall randint_range draws →
  Forall (λ o, -1 ≤ last_timestamp (after o)
               ∧ (∀ s, s ∈ generated_sequences (after o) → randint_range s)
               ∧ (size (generated_sequences (after o)) ≤ Z.to_nat 4096)%nat)
         (calls self0 clock draws).
Proof.
  intros Hinit Hdraws. apply init_inr in Hinit as [_ ->].
  assert (Hsize : ∀ X : gset Z,
            (∀ s, s ∈ X → randint_range s) → (size X ≤ Z.to_nat 4096)%nat).
  { intros X HX. rewrite <- all_sequences_length.
    rewrite <- (size_list_to_set (C := gset Z)) by apply NoDup_seqZ.
    apply subseteq_size. intros s Hs.
    by apply elem_of_list_to_set, all_sequences_range, HX. }
  assert (Hcalls : ∀ clock self draws,
    -1 ≤ last_timestamp self →
    (∀ s, s ∈ generated_sequences self → randint_range s) →
    Forall randint_range draws →
    Forall (λ o, -1 ≤ last_timestamp (after o)
                 ∧ (∀ s, s ∈ generated_sequences (after o) → randint_range s))
           (calls self clock draws)).
  { clear clock draws Hdraws. intros clock.
    induction clock as [|timestamp clock IH]; intros self draws Hlast Hset Hdraws;
      [constructor|].
    cbn [calls]. destruct (generate_id self timestamp draws)
      as [id sequence self' rest|e self'|self'] eqn:Hgen.
    - destruct (randint_range_rest _ _ _ _ _ _ _ Hdraws Hgen) as [Hs Hrest].
      apply generate_id_Returned in Hgen as (Hle & _ & _ & _ & ->).
      assert (Hset' : ∀ s, s ∈ {[sequence]} ∪ generated_sequences (observe self timestamp)
                           → randint_range s).
      { intros s [->%elem_of_singleton|Hin]%elem_of_union; [done|].
        rewrite observe_generated_sequences in Hin.
        case_decide; [by apply Hset|by apply not_elem_of_empty in Hin]. }
      constructor; [cbn [after last_timestamp generated_sequences]; split; [lia|done]|].
      apply IH; [cbn [last_timestamp]; lia|done|done].
    - apply generate_id_Raised in Hgen as (_ & _ & ->).
      constructor; [done|]. by apply IH.
    - unfold generate_id in Hgen. case_decide as Hlt; [done|].
      destruct (draw_sequence _ draws) as [[[s used] r]|]; [done|].
      injection Hgen as <-. constructor; [|constructor].
      cbn [after]. rewrite observe_last_timestamp, observe_generated_sequences.
      split; [lia|]. intros s. case_decide; [by apply Hset|].
      intros Hin. by apply not_elem_of_empty in Hin. }
  eapply Forall_impl; [apply Hcalls; [done| |done]|].
  - intros s Hs. by apply not_elem_of_empty in Hs.
  - intros o (Hlast & Hset). split; [done|]. split; [done|]. by apply Hsize.
Qed.

Lemma object_bounds_witness :
  init usage_epoch usage_machine_id = inr generator
  ∧ Forall randint_range [7; 7; 3; 7]
  ∧ Forall (λ o, -1 ≤ last_timestamp (after o)
                 ∧ (∀ s, s ∈ generated_sequences (after o) → randint_range s)
                 ∧ (size (generated_sequences (after o)) ≤ Z.to_nat 4096)%nat)
           (calls generator [reading; reading; reading - 1; reading + 1] [7; 7; 3; 7]).
Proof.
  assert (Hdraws : Forall randint_range [7; 7; 3; 7])
    by (repeat constructor; vm_compute; congruence).
  split; [exact usage_init|]. split; [exact Hdraws|].
  exact (object_bounds usage_epoch usage_machine_id generator
           [reading; reading; reading - 1; reading + 1] [7; 7; 3; 7]
           usage_init Hdraws).
Defined.

Lemma after_last_timestamp self timestamp draws :
  last_timestamp self ≤ last_timestamp (after (generate_id self timestamp draws)).
Proof.
  unfold generate_id. case_decide as Hlt; [done|].
  destruct (draw_sequence _ draws) as [[[s used] r]|]; cbn [after last_timestamp];
    rewrite observe_last_timestamp; lia.
Qed.

(** X9. The reading the object remembers never goes back: from one state of
    a generator to a later one [last_timestamp] does not decrease, whatever
    the clock did in between. *)
Theorem last_timestamp_monotone self0 self :
  reachable self0 self →
  last_timestamp self0 ≤ last_timestamp self.
Proof.
  induction 1 as [|self timestamp draws _ IH _]; [done|].
  pose proof (after_last_timestamp self timestamp draws). lia.
Qed.

Lemma last_timestamp_monotone_witness :
  reachable generator (Build usage_epoch usage_machine_id reading {[7]})
  ∧ last_timestamp generator
    ≤ last_timestamp (Build usage_epoch usage_machine_id reading {[7]}).
Proof.
  split; [exact usage_reachable|].
  exact (last_timestamp_monotone generator
           (Build usage_epoch usage_machine_id reading {[7]}) usage_reachable).
Defined.

(** ** The script of the usage example *)

(** The value of [purchase_order_id] after the loop: the last id returned,
    or what it was when no call was made. *)
Lemma last_cons_Some (id : Z) (ids : list Z) (po : option Z) :
  from_option Some po (last (id :: ids)) = from_option Some (Some id) (last ids).
Proof. rewrite last_cons. by destruct (last ids). Qed.

(** The loop of lines 62-68, started with an object whose machine id fits
    and a set [generated_ids] of stale ids only: no collision is reported;
    what is printed is one line per id returned, the ids being all
    different; the loop ends by the exception of a call whose reading went
    back, by a call that does not return, or after one id per reading. *)
Lemma order_loop_spec readings : ∀ self generated_ids po draws stdout,
  0 ≤ machine_id self ≤ 1023 →
  Forall randint_range draws →
  (∀ id, id ∈ generated_ids → stale self id) →
  ∃ ids,
    NoDup ids
    ∧ (∀ id, id ∈ ids → ¬ stale self id)
    ∧ (order_loop self generated_ids po readings draws stdout
       = LoopRaised ClockMovedBackwards (stdout ++ (order_line <$> ids))
       ∨ order_loop self generated_ids po readings draws stdout
         = LoopLooping (stdout ++ (order_line <$> ids))
       ∨ (order_loop self generated_ids po readings draws stdout
          = LoopDone (from_option Some po (last ids))
              (list_to_set ids ∪ generated_ids)
              (stdout ++ (order_line <$> ids))
          ∧ Forall2 (λ reading id, ∃ sequence,
                       randint_range sequence
                       ∧ parse_snowflake_id id (epoch self)
                         = (reading, machine_id self, sequence))
              readings ids)).
Proof.
  induction readings as [|timestamp readings IH];
    intros self generated_ids po draws stdout Hm Hdraws Hstale.
  { exists []. split; [constructor|]. split.
    - intros id Hid. by apply not_elem_of_nil in Hid.
    - right. right. cbn [order_loop fmap list_fmap last from_option list_to_set foldr].
      rewrite (left_id_L ∅ (∪)), app_nil_r. split; [done|constructor]. }
  cbn [order_loop]. destruct (generate_id self timestamp draws)
    as [id sequence self' rest|e self'|self'] eqn:Hgen.
  - destruct (randint_range_rest _ _ _ _ _ _ _ Hdraws Hgen) as [Hs Hrest].
    destruct (generate_id_stale _ _ _ _ _ _ _ Hm Hdraws Hgen)
      as (_ & Hparse & Hnew & Hold & Hmono).
    pose proof (after_machine_id self timestamp draws) as Hm'.
    pose proof (after_epoch self timestamp draws) as He'.
    rewrite Hgen in Hm', He'. cbn [after] in Hm', He'.
    rewrite decide_False by (intros Hin; by apply Hnew, Hstale).
    destruct (IH self' ({[id]} ∪ generated_ids) (Some id) rest
                (stdout ++ [order_line id]))
      as (ids & Hnodup & Hfresh & Hend); [by rewrite Hm'|done| |].
    { intros x [->%elem_of_singleton|Hx]%elem_of_union; [done|].
      by apply Hmono, Hstale. }
    exists (id :: ids). split; [|split].
    + apply NoDup_cons. split; [|done]. intros Hin. by apply (Hfresh id).
    + intros x [->|Hx]%elem_of_cons; [done|].
      intros Hx'. by apply (Hfresh x), Hmono.
    + rewrite last_cons_Some. cbn [fmap list_fmap list_to_set foldr].
      rewrite <- (assoc_L (++)) in Hend. cbn [app] in Hend.
      replace ({[id]} ∪ list_to_set ids ∪ generated_ids)
        with (list_to_set ids ∪ ({[id]} ∪ generated_ids) : gset Z)
        by (by rewrite (assoc_L (∪)), (comm_L (∪) (list_to_set ids))).
      destruct Hend as [Hend|[Hend|[Hend Hall]]]; [by left|by right; left|].
      right. right. split; [done|]. constructor; [|by rewrite <- He', <- Hm'].
      by exists sequence.
  - apply generate_id_Raised in Hgen as (_ & -> & _).
    exists []. split; [constructor|]. split.
    + intros id Hid. by apply not_elem_of_nil in Hid.
    + left. cbn [fmap list_fmap]. by rewrite app_nil_r.
  - exists []. split; [constructor|]. split.
    + intros id Hid. by apply not_elem_of_nil in Hid.
    + right. left. cbn [fmap list_fmap]. by rewrite app_nil_r.
Qed.

(** X10. The script never reports a collision.  Whatever the clock does and
    whatever values of the range are drawn, the script prints one
    "Purchase Order ID" line per id returned, the ids being all different,
    and no "Collision detected" line; it then stops on the exception of a
    call whose reading went back, or waits on a call that does not return,
    or has printed ten ids and ends with the line of the last one decoded:
    the tenth clock reading, the machine id 1 and a sequence of the
    range. *)
Theorem usage_script_output (clock : nat → Z) (draws : list Z) :
  Forall randint_range draws →
  ∃ ids,
    NoDup ids
    ∧ (usage_script clock draws
       = Traceback ClockMovedBackwards (order_line <$> ids)
       ∨ usage_script clock draws = Hanging (order_line <$> ids)
       ∨ ∃ sequence,
           length ids = 10%nat
           ∧ randint_range sequence
           ∧ usage_script clock draws
             = Exited ((order_line <$> ids)
                       ++ [parsed_line (clock 9%nat, usage_machine_id, sequence)])).
Proof.
  intros Hdraws. unfold usage_script. rewrite usage_init.
  destruct (order_loop_spec (clock <$> seq 0 10) generator ∅ None draws [])
    as (ids & Hnodup & _ & Hend).
  { vm_compute. split; congruence. }
  { done. }
  { intros id Hid. by apply not_elem_of_empty in Hid. }
  exists ids. split; [done|].
  destruct Hend as [->|[->|[-> Hall]]]; [by left|by right; left|].
  right. right.
  change (seq 0 10) with (seq 0 9 ++ [9%nat]) in Hall.
  rewrite fmap_app in Hall.
  apply Forall2_app_inv_l in Hall as (ids9 & ids1 & Hall9 & Hall1 & ->).
  apply Forall2_length in Hall9. rewrite length_fmap, length_seq in Hall9.
  cbn [fmap list_fmap] in Hall1.
  apply Forall2_cons_inv_l in Hall1
    as (id & ids0 & (sequence & Hs & Hparse) & Hnil & ->).
  apply Forall2_nil_inv_l in Hnil as ->.
  exists sequence. rewrite last_snoc. cbn [from_option].
  split; [rewrite length_app; cbn [length]; lia|]. split; [done|].
  change (epoch generator) with usage_epoch in Hparse.
  change (machine_id generator) with usage_machine_id in Hparse.
  by rewrite Hparse.
Qed.

Lemma usage_script_output_witness :
  Forall randint_range [7; 7; 3; 7; 3; 9; 7; 7; 3; 3; 7; 8; 5; 5; 5]
  ∧ usage_script (λ k, reading + Z.of_nat (k / 4))
      [7; 7; 3; 7; 3; 9; 7; 7; 3; 3; 7; 8; 5; 5; 5]
    = Hanging (order_line <$> [20971524103; 20971524099; 20971524105;
                               20971524104; 20975718405])
  ∧ ∃ ids,
      NoDup ids
      ∧ (usage_script (λ k, reading + Z.of_nat (k / 4))
           [7; 7; 3; 7; 3; 9; 7; 7; 3; 3; 7; 8; 5; 5; 5]
         = Traceback ClockMovedBackwards (order_line <$> ids)
         ∨ usage_script (λ k, reading + Z.of_nat (k / 4))
             [7; 7; 3; 7; 3; 9; 7; 7; 3; 3; 7; 8; 5; 5; 5]
           = Hanging (order_line <$> ids)
         ∨ ∃ sequence,
             length ids = 10%nat
             ∧ randint_range sequence
             ∧ usage_script (λ k, reading + Z.of_nat (k / 4))
                 [7; 7; 3; 7; 3; 9; 7; 7; 3; 3; 7; 8; 5; 5; 5]
               = Exited ((order_line <$> ids)
                         ++ [parsed_line
                               ((λ k, reading + Z.of_nat (k / 4)) 9%nat,
                                usage_machine_id, sequence)])).
Proof.
  assert (Hdraws : Forall randint_range
                     [7; 7; 3; 7; 3; 9; 7; 7; 3; 3; 7; 8; 5; 5; 5])
    by (repeat constructor; vm_compute; congruence).
  split; [exact Hdraws|]. split; [vm_compute; reflexivity|].
  exact (usage_script_output (λ k, reading + Z.of_nat (k / 4))
           [7; 7; 3; 7; 3; 9; 7; 7; 3; 3; 7; 8; 5; 5; 5] Hdraws).
Defined.

(** The loop runs through when the clock never goes back and the draws that
    are left hold at least as many values outside the set of the object as
    there are calls to make. *)
Lemma order_loop_done readings : ∀ self generated_ids po draws stdout,
  Sorted Z.le (last_timestamp self :: readings) →
  (length readings
   ≤ size (list_to_set draws ∖ generated_sequences self : gset Z))%nat →
  ∃ po' generated_ids' stdout',
    order_loop self generated_ids po readings draws stdout
    = LoopDone po' generated_ids' stdout'
    ∧ (readings ≠ [] ∨ is_Some po → is_Some po').
Proof.
  induction readings as [|timestamp readings IH];
    intros self generated_ids po draws stdout Hsorted Hsize.
  { eexists _, _, _. split; [done|]. by intros [?|?]. }
  apply Sorted_inv in Hsorted as [Hsorted Hle%HdRel_inv].
  assert (Hobs : generated_sequences (observe self timestamp)
                 ⊆ generated_sequences self).
  { rewrite observe_generated_sequences. case_decide; [done|].
    apply empty_subseteq. }
  destruct (size_pos_elem_of
              (list_to_set draws ∖ generated_sequences self : gset Z))
    as [d [Hd Hfresh]%elem_of_difference]; [cbn [length] in Hsize; lia|].
  apply elem_of_list_to_set in Hd.
  destruct (generate_id_returns self timestamp draws d Hle Hd)
    as (id & sequence & self' & rest & Hgen).
  { intros Hin. by apply Hfresh, Hobs. }
  cbn [order_loop]. rewrite Hgen.
  destruct (generate_id_rest _ _ _ _ _ _ _ Hgen) as (rejected & -> & Hrej).
  apply generate_id_Returned in Hgen as (_ & _ & _ & _ & ->).
  rewrite Forall_forall in Hrej.
  assert (Hnext : (length readings
                   ≤ size (list_to_set rest
                           ∖ ({[sequence]}
                              ∪ generated_sequences (observe self timestamp))
                           : gset Z))%nat).
  { set (fresh := list_to_set (rejected ++ sequence :: rest)
                  ∖ generated_sequences self : gset Z) in *.
    assert (Hsub : fresh ⊆ {[sequence]}
                   ∪ (list_to_set rest
                      ∖ ({[sequence]}
                         ∪ generated_sequences (observe self timestamp)))).
    { intros x [Hx Hxfresh]%elem_of_difference.
      apply elem_of_list_to_set, elem_of_app in Hx as [Hx|Hx].
      - exfalso. by apply Hxfresh, Hobs, Hrej.
      - apply elem_of_cons in Hx as [->|Hx];
          [by apply elem_of_union_l, elem_of_singleton|].
        destruct (decide (x = sequence)) as [->|Hne];
          [by apply elem_of_union_l, elem_of_singleton|].
        apply elem_of_union_r, elem_of_difference.
        split; [by apply elem_of_list_to_set|].
        intros [Hs%elem_of_singleton|Hin]%elem_of_union; [done|].
        by apply Hxfresh, Hobs. }
    apply subseteq_size in Hsub.
    rewrite size_union, size_singleton in Hsub.
    - cbn [length] in Hsize. lia.
    - intros x Hx%elem_of_singleton [_ Hx']%elem_of_difference. subst x.
      by apply Hx', elem_of_union_l, elem_of_singleton. }
  case_decide.
  - destruct (IH (Build (epoch self) (machine_id self) timestamp
                    ({[sequence]} ∪ generated_sequences (observe self timestamp)))
                generated_ids
                (Some id) rest
                (stdout ++ [collision_line id;
                            order_line id]))
      as (po' & generated_ids' & stdout' & Hloop & Hpo); [done|done|].
    exists po', generated_ids', stdout'. split; [exact Hloop|].
    intros _. apply Hpo. right. by eexists.
  - destruct (IH (Build (epoch self) (machine_id self) timestamp
                    ({[sequence]} ∪ generated_sequences (observe self timestamp)))
                ({[id]} ∪ generated_ids)
                (Some id) rest
                (stdout ++ [order_line id]))
      as (po' & generated_ids' & stdout' & Hloop & Hpo); [done|done|].
    exists po', generated_ids', stdout'. split; [exact Hloop|].
    intros _. apply Hpo. right. by eexists.
Qed.

(** X11. The script runs to its end when the clock never goes back and the
    draws hold ten different values: [generate_id] is called ten times, at
    most nine sequences are taken when a call is made, so every call finds a
    free one. *)
Theorem usage_script_exits (clock : nat → Z) (draws : list Z) :
  0 ≤ clock 0%nat →
  (∀ k, (k < 9)%nat → clock k ≤ clock (S k)) →
  (10 ≤ size (list_to_set draws : gset Z))%nat →
  ∃ stdout, usage_script clock draws = Exited stdout.
Proof.
  intros H0 Hclock Hsize. unfold usage_script. rewrite usage_init.
  destruct (order_loop_done (clock <$> seq 0 10) generator ∅ None draws [])
    as (po & generated_ids & stdout & -> & Hpo).
  - change (last_timestamp generator) with (-1).
    cbn [seq fmap list_fmap].
    constructor; [|constructor; lia].
    repeat (constructor; [|constructor; apply Hclock; lia]).
    repeat constructor.
  - change (generated_sequences generator) with (∅ : gset Z).
    by rewrite difference_empty_L, length_fmap, length_seq.
  - destruct Hpo as [id ->]; [by left|]. by eexists.
Qed.

Lemma usage_script_exits_witness :
  0 ≤ reading + Z.of_nat 0 / 4
  ∧ (∀ k, (k < 9)%nat → reading + Z.of_nat k / 4 ≤ reading + Z.of_nat (S k) / 4)
  ∧ (10 ≤ size (list_to_set [7; 7; 3; 7; 3; 9; 8; 5; 5; 1; 2; 4; 6; 0]%Z
                : gset Z))%nat
  ∧ usage_script (λ k, reading + Z.of_nat k / 4)
      [7; 7; 3; 7; 3; 9; 8; 5; 5; 1; 2; 4; 6; 0]
    = Exited ["Purchase Order ID: 20971524103"; "Purchase Order ID: 20971524099";
              "Purchase Order ID: 20971524105"; "Purchase Order ID: 20971524104";
              "Purchase Order ID: 20975718405"; "Purchase Order ID: 20975718401";
              "Purchase Order ID: 20975718402"; "Purchase Order ID: 20975718404";
              "Purchase Order ID: 20979912710"; "Purchase Order ID: 20979912704";
              "1577880005002 1 0"]
  ∧ ∃ stdout,
      usage_script (λ k, reading + Z.of_nat k / 4)
        [7; 7; 3; 7; 3; 9; 8; 5; 5; 1; 2; 4; 6; 0]
      = Exited stdout.
Proof.
  assert (H0 : 0 ≤ reading + Z.of_nat 0 / 4) by (vm_compute; congruence).
  assert (Hclock : ∀ k, (k < 9)%nat →
            reading + Z.of_nat k / 4 ≤ reading + Z.of_nat (S k) / 4)
    by (intros k Hk; apply Z.add_le_mono_l, Z.div_le_mono; lia).
  assert (Hsize : (10 ≤ size (list_to_set [7; 7; 3; 7; 3; 9; 8; 5; 5; 1; 2; 4; 6; 0]%Z
                            : gset Z))%nat)
    by (vm_compute; lia).
  split; [exact H0|]. split; [exact Hclock|]. split; [exact Hsize|].
  split; [vm_compute; reflexivity|].
  exact (usage_script_exits (λ k, reading + Z.of_nat k / 4)
           [7; 7; 3; 7; 3; 9; 8; 5; 5; 1; 2; 4; 6; 0] H0 Hclock Hsize).
Defined.
